(** * LIME (lime.h): data-stage masks, derived constants and configuration record

    A shallow embedding of what [src/src/lime.h] defines: the preprocessor
    constants, the bit positions and masks of the grid data-stage word, the
    derived physical constants, and the configuration record [inputPars].
    The functions of the header are declared there without bodies; none of
    them is modelled.

    C [int] values are carried as [Z]; every mask of the header is far
    inside the 32-bit range, which is proved below, so no wrap-around occurs
    in the masks.  The macros are also modelled as the token lists they
    are, with the preprocessor's replacement and the parse of the line
    that results.  A floating expression is evaluated in an arithmetic
    given as a parameter, binary64 being one. *)

From Stdlib Require Import String ZArith List Bool Lia QArith Floats.
From Stdlib Require Vector.
Import ListNotations.

Local Open Scope Z_scope.

(** ** Constants of the header *)

Definition max_phot : Z := 10000.
Definition ininphot : Z := 9.
Definition MAXITER : nat := 50.
Definition goal : Z := 50.
Definition NUM_GRID_STAGES : nat := 4.

(** ** Bit locations of the grid data-stage mask *)

Definition DS_bit_x : Z := 0.
Definition DS_bit_neighbours : Z := 1.
Definition DS_bit_velocity : Z := 2.
Definition DS_bit_density : Z := 3.
Definition DS_bit_abundance : Z := 4.
Definition DS_bit_turb_doppler : Z := 5.
Definition DS_bit_temperatures : Z := 6.
Definition DS_bit_ACOEFF : Z := 7.
Definition DS_bit_populations : Z := 8.

(** The nine attribute groups the header's comments attach to the bits:
    id/x/sink, neigh/dir/ds/numNeigh, vel, dens, abun/nmol, dopb, t,
    a0..a4, mol. *)
Inductive attribute : Set :=
| attr_x
| attr_neighbours
| attr_velocity
| attr_density
| attr_abundance
| attr_turb_doppler
| attr_temperatures
| attr_ACOEFF
| attr_populations.

Definition all_attributes : list attribute :=
  [attr_x; attr_neighbours; attr_velocity; attr_density; attr_abundance;
   attr_turb_doppler; attr_temperatures; attr_ACOEFF; attr_populations].

Definition DS_bit (a : attribute) : Z :=
  match a with
  | attr_x => DS_bit_x
  | attr_neighbours => DS_bit_neighbours
  | attr_velocity => DS_bit_velocity
  | attr_density => DS_bit_density
  | attr_abundance => DS_bit_abundance
  | attr_turb_doppler => DS_bit_turb_doppler
  | attr_temperatures => DS_bit_temperatures
  | attr_ACOEFF => DS_bit_ACOEFF
  | attr_populations => DS_bit_populations
  end.

(** ** The masks

    Each [#define] is the value of its replacement text read as a full
    expression: [(1 << b)] is [Z.shiftl 1 b] and [|] is [Z.lor], grouped to
    the left as C parses a chain of [|]. *)

Definition DS_mask_x : Z := Z.shiftl 1 DS_bit_x.
Definition DS_mask_neighbours : Z := Z.lor (Z.shiftl 1 DS_bit_neighbours) DS_mask_x.
Definition DS_mask_velocity : Z := Z.lor (Z.shiftl 1 DS_bit_velocity) DS_mask_x.
Definition DS_mask_density : Z := Z.lor (Z.shiftl 1 DS_bit_density) DS_mask_x.
Definition DS_mask_abundance : Z := Z.lor (Z.shiftl 1 DS_bit_abundance) DS_mask_x.
Definition DS_mask_turb_doppler : Z := Z.lor (Z.shiftl 1 DS_bit_turb_doppler) DS_mask_x.
Definition DS_mask_temperatures : Z := Z.lor (Z.shiftl 1 DS_bit_temperatures) DS_mask_x.
Definition DS_mask_ACOEFF : Z :=
  Z.lor (Z.lor (Z.shiftl 1 DS_bit_ACOEFF) DS_mask_neighbours) DS_mask_velocity.

Definition DS_mask_1 : Z := DS_mask_x.
Definition DS_mask_2 : Z := DS_mask_neighbours.
Definition DS_mask_3 : Z :=
  Z.lor (Z.lor (Z.lor (Z.lor (Z.lor DS_mask_2 DS_mask_density) DS_mask_abundance)
                      DS_mask_turb_doppler) DS_mask_temperatures) DS_mask_ACOEFF.
Definition DS_mask_populations : Z := Z.lor (Z.shiftl 1 DS_bit_populations) DS_mask_3.
Definition DS_mask_4 : Z := DS_mask_populations.
Definition DS_mask_all : Z := DS_mask_populations.

(** The mask the header gives an attribute group. *)
Definition DS_mask (a : attribute) : Z :=
  match a with
  | attr_x => DS_mask_x
  | attr_neighbours => DS_mask_neighbours
  | attr_velocity => DS_mask_velocity
  | attr_density => DS_mask_density
  | attr_abundance => DS_mask_abundance
  | attr_turb_doppler => DS_mask_turb_doppler
  | attr_temperatures => DS_mask_temperatures
  | attr_ACOEFF => DS_mask_ACOEFF
  | attr_populations => DS_mask_populations
  end.

(** The mask of data stage [dataStageI] (1 to 4); no stage, no bit. *)
Definition DS_mask_stage (dataStageI : Z) : Z :=
  match dataStageI with
  | 1 => DS_mask_1
  | 2 => DS_mask_2
  | 3 => DS_mask_3
  | 4 => DS_mask_4
  | _ => 0
  end.

Definition grid_stage_masks : list Z := [DS_mask_1; DS_mask_2; DS_mask_3; DS_mask_4].

(** Stage [dataStageI] brings attribute group [a]: its bit is missing from
    the mask of the stage before and present in the stage's own. *)
Definition stage_adds (dataStageI : Z) (a : attribute) : Prop :=
  Z.testbit (DS_mask_stage (dataStageI - 1)) (DS_bit a) = false
  /\ Z.testbit (DS_mask_stage dataStageI) (DS_bit a) = true.

(** *** The masks as the preprocessor sees them

    The replacement texts are not parenthesised, so a mask is spliced token
    by token where it is used.  Inside the header every use stands in a chain
    of [|] whose only other operands are parenthesised shifts; the expansion
    of a mask is therefore a flat chain [(1 << b1) | (1 << b2) | ...]. *)

Inductive macro : Set :=
| m_x | m_neighbours | m_velocity | m_density | m_abundance
| m_turb_doppler | m_temperatures | m_ACOEFF
| m_1 | m_2 | m_3 | m_populations | m_4 | m_all.

Inductive operand : Set :=
| op_shift (bitI : Z)      (* the group (1 << bitI) *)
| op_macro (m : macro).    (* another mask's name *)

(** The operands of each replacement text, in the order written. *)
Definition replacement (m : macro) : list operand :=
  match m with
  | m_x => [op_shift DS_bit_x]
  | m_neighbours => [op_shift DS_bit_neighbours; op_macro m_x]
  | m_velocity => [op_shift DS_bit_velocity; op_macro m_x]
  | m_density => [op_shift DS_bit_density; op_macro m_x]
  | m_abundance => [op_shift DS_bit_abundance; op_macro m_x]
  | m_turb_doppler => [op_shift DS_bit_turb_doppler; op_macro m_x]
  | m_temperatures => [op_shift DS_bit_temperatures; op_macro m_x]
  | m_ACOEFF => [op_shift DS_bit_ACOEFF; op_macro m_neighbours; op_macro m_velocity]
  | m_1 => [op_macro m_x]
  | m_2 => [op_macro m_neighbours]
  | m_3 => [op_macro m_2; op_macro m_density; op_macro m_abundance;
            op_macro m_turb_doppler; op_macro m_temperatures; op_macro m_ACOEFF]
  | m_populations => [op_shift DS_bit_populations; op_macro m_3]
  | m_4 => [op_macro m_populations]
  | m_all => [op_macro m_populations]
  end.

(** Full expansion, to nesting depth [depth]: the shifts of the flat chain. *)
Fixpoint expand (depth : nat) (ops : list operand) : list Z :=
  match depth with
  | O => []
  | S d =>
      flat_map (fun o => match o with
                         | op_shift b => [b]
                         | op_macro m => expand d (replacement m)
                         end) ops
  end.

(** The value of the chain [(1 << b1) | (1 << b2) | ...], grouped to the left. *)
Definition chain_value (bits : list Z) : Z :=
  fold_left (fun acc b => Z.lor acc (Z.shiftl 1 b)) bits 0.

Definition macro_value (m : macro) : Z := chain_value (expand 6 (replacement m)).

(** ** Bit inclusion between data-stage words *)

(** Every bit set in [small] is set in [big]. *)
Definition includes_bits (big small : Z) : Prop :=
  forall i : Z, Z.testbit small i = true -> Z.testbit big i = true.

(** The range of a C [int]. *)
Definition in_int_range (z : Z) : Prop := - 2 ^ 31 <= z <= 2 ^ 31 - 1.

(** ** Fixed-size C arrays

    [T a[n]] is a vector of length [n].  An index outside [0 .. n-1] names no
    element: reading there gives [None], and the model of an assignment
    leaves the array as it was. *)

Definition array_get {A : Type} {n : nat} (a : Vector.t A n) (i : Z) : option A :=
  if (0 <=? i) && (i <? Z.of_nat n) then nth_error (Vector.to_list a) (Z.to_nat i)
  else None.

Fixpoint array_set {A : Type} {n : nat} (a : Vector.t A n) (i : Z) (v : A) : Vector.t A n :=
  match a in Vector.t _ k return Vector.t A k with
  | Vector.nil _ => Vector.nil A
  | Vector.cons _ h m t =>
      if i =? 0 then Vector.cons A v m t else Vector.cons A h m (array_set t (i - 1) v)
  end.

(** ** The configuration record [inputPars]

    Field by field as the header declares it; a [char*] is a string or the
    null pointer, [char **moldatfile] a list of strings. *)

Record inputPars : Type := {
  radius : Q; radiusSqu : Q; minScale : Q; minScaleSqu : Q; tcmb : Q; taylorCutoff : Q;
  ncell : Z; sinkPoints : Z; pIntensity : Z; nImages : Z; nSpecies : Z; blend : Z;
  outputfile : option string; binoutputfile : option string; inputfile : option string;
  gridfile : option string;
  pregrid : option string;
  restart : option string;
  dust : option string;
  sampling : Z; collPart : Z; lte_only : Z; init_lte : Z; antialias : Z;
  polarization : Z; doPregrid : Z; nThreads : Z;
  moldatfile : list string;
  writeGridAtStage : Vector.t bool NUM_GRID_STAGES;
  gridInFile : option string;
  gridOutFiles : Vector.t (option string) NUM_GRID_STAGES;
  dataStageI : Z; nSolveIters : Z
}.

(** The assignment [par->writeGridAtStage[i] = flag]. *)
Definition set_writeGridAtStage (par : inputPars) (i : Z) (flag : bool) : inputPars :=
  {| radius := radius par; radiusSqu := radiusSqu par; minScale := minScale par;
     minScaleSqu := minScaleSqu par; tcmb := tcmb par; taylorCutoff := taylorCutoff par;
     ncell := ncell par; sinkPoints := sinkPoints par; pIntensity := pIntensity par;
     nImages := nImages par; nSpecies := nSpecies par; blend := blend par;
     outputfile := outputfile par; binoutputfile := binoutputfile par;
     inputfile := inputfile par; gridfile := gridfile par; pregrid := pregrid par;
     restart := restart par; dust := dust par;
     sampling := sampling par; collPart := collPart par; lte_only := lte_only par;
     init_lte := init_lte par; antialias := antialias par;
     polarization := polarization par; doPregrid := doPregrid par;
     nThreads := nThreads par; moldatfile := moldatfile par;
     writeGridAtStage := array_set (writeGridAtStage par) i flag;
     gridInFile := gridInFile par;
     gridOutFiles := gridOutFiles par;
     dataStageI := dataStageI par; nSolveIters := nSolveIters par |}.

(** The assignment [par->gridOutFiles[i] = name]. *)
Definition set_gridOutFiles (par : inputPars) (i : Z) (name : option string) : inputPars :=
  {| radius := radius par; radiusSqu := radiusSqu par; minScale := minScale par;
     minScaleSqu := minScaleSqu par; tcmb := tcmb par; taylorCutoff := taylorCutoff par;
     ncell := ncell par; sinkPoints := sinkPoints par; pIntensity := pIntensity par;
     nImages := nImages par; nSpecies := nSpecies par; blend := blend par;
     outputfile := outputfile par; binoutputfile := binoutputfile par;
     inputfile := inputfile par; gridfile := gridfile par; pregrid := pregrid par;
     restart := restart par; dust := dust par;
     sampling := sampling par; collPart := collPart par; lte_only := lte_only par;
     init_lte := init_lte par; antialias := antialias par;
     polarization := polarization par; doPregrid := doPregrid par;
     nThreads := nThreads par; moldatfile := moldatfile par;
     writeGridAtStage := writeGridAtStage par;
     gridInFile := gridInFile par;
     gridOutFiles := array_set (gridOutFiles par) i name;
     dataStageI := dataStageI par; nSolveIters := nSolveIters par |}.

(** A record with every field zero, null or empty. *)
Definition zeroed_inputPars : inputPars :=
  {| radius := 0 # 1; radiusSqu := 0 # 1; minScale := 0 # 1; minScaleSqu := 0 # 1;
     tcmb := 0 # 1; taylorCutoff := 0 # 1;
     ncell := 0; sinkPoints := 0; pIntensity := 0; nImages := 0; nSpecies := 0;
     blend := 0;
     outputfile := None; binoutputfile := None; inputfile := None; gridfile := None;
     pregrid := None; restart := None; dust := None;
     sampling := 0; collPart := 0; lte_only := 0; init_lte := 0; antialias := 0;
     polarization := 0; doPregrid := 0; nThreads := 0; moldatfile := [];
     writeGridAtStage := Vector.const false NUM_GRID_STAGES;
     gridInFile := None;
     gridOutFiles := Vector.const None NUM_GRID_STAGES;
     dataStageI := 0; nSolveIters := 0 |}.

(** ** The macros as text: preprocessing, parsing, evaluation

    A name defined by [#define] stands for a list of tokens.  Where the
    name is used, the preprocessor puts that list in its place and the
    compiler parses the line that results, with the precedence of C's
    operators.  The header parenthesises [DS_mask_x] alone; every other
    replacement text is a bare chain of [|], or of [*] and [/]. *)

(** The physical constants that are built from other constants, and the
    constants they are built from. *)
Inductive phys : Set :=
| c_PI | c_SPI | c_CLIGHT | c_HPLANCK | c_KBOLTZ | c_HPIP | c_HCKB.

Inductive token : Set :=
| t_int (n : Z)            (* an integer literal *)
| t_real (q : Q)           (* a floating literal, by its decimal value *)
| t_var                    (* an identifier that is no macro: an operand of the user *)
| t_bit (a : attribute)    (* the name DS_bit_... *)
| t_mask (m : macro)       (* the name DS_mask_... *)
| t_phys (c : phys)        (* the name of a physical constant *)
| t_lparen | t_rparen
| t_or | t_xor | t_and | t_eq | t_ne | t_shl | t_mul | t_div | t_not.

(** The replacement text of each mask, token for token (lime.h, lines 93 to
    107). *)
Definition mask_text (m : macro) : list token :=
  let shift (a : attribute) := [t_lparen; t_int 1; t_shl; t_bit a; t_rparen] in
  match m with
  | m_x => shift attr_x
  | m_neighbours => shift attr_neighbours ++ [t_or; t_mask m_x]
  | m_velocity => shift attr_velocity ++ [t_or; t_mask m_x]
  | m_density => shift attr_density ++ [t_or; t_mask m_x]
  | m_abundance => shift attr_abundance ++ [t_or; t_mask m_x]
  | m_turb_doppler => shift attr_turb_doppler ++ [t_or; t_mask m_x]
  | m_temperatures => shift attr_temperatures ++ [t_or; t_mask m_x]
  | m_ACOEFF =>
      shift attr_ACOEFF ++ [t_or; t_mask m_neighbours; t_or; t_mask m_velocity]
  | m_1 => [t_mask m_x]
  | m_2 => [t_mask m_neighbours]
  | m_3 => [t_mask m_2; t_or; t_mask m_density; t_or; t_mask m_abundance; t_or;
            t_mask m_turb_doppler; t_or; t_mask m_temperatures; t_or; t_mask m_ACOEFF]
  | m_populations => shift attr_populations ++ [t_or; t_mask m_3]
  | m_4 => [t_mask m_populations]
  | m_all => [t_mask m_populations]
  end.

(** The replacement text of each physical constant (lime.h, lines 51 to 58). *)
Definition phys_text (c : phys) : list token :=
  match c with
  | c_PI => [t_real 3.14159265358979323846%Q]
  | c_SPI => [t_real 1.77245385%Q]
  | c_CLIGHT => [t_real 2.997924562e8%Q]
  | c_HPLANCK => [t_real 6.626196e-34%Q]
  | c_KBOLTZ => [t_real 1.380622e-23%Q]
  | c_HPIP => [t_phys c_HPLANCK; t_mul; t_phys c_CLIGHT; t_div; t_real 4.0%Q; t_div;
               t_phys c_PI; t_div; t_phys c_SPI]
  | c_HCKB => [t_real 100%Q; t_mul; t_phys c_HPLANCK; t_mul; t_phys c_CLIGHT; t_div;
               t_phys c_KBOLTZ]
  end.

(** Macro replacement, rescanning the replaced text [depth] times.  A name
    left over when [depth] runs out stays a name, and does not parse. *)
Fixpoint preprocess (depth : nat) (ts : list token) : list token :=
  match depth with
  | O => ts
  | S d =>
      flat_map (fun t => match t with
                         | t_bit a => [t_int (DS_bit a)]
                         | t_mask m => preprocess d (mask_text m)
                         | t_phys c => preprocess d (phys_text c)
                         | _ => [t]
                         end) ts
  end.

Inductive binop : Set :=
| b_or | b_xor | b_and | b_eq | b_ne | b_shl | b_mul | b_div.

Inductive expr : Set :=
| e_int (n : Z)
| e_real (q : Q)
| e_var
| e_not (e : expr)
| e_bin (op : binop) (l r : expr).

(** C's binary operators by precedence level, loosest first: [|], [^],
    [&], [== !=], [<<], [* /].  Level 6 is the unary [~], level 7 a
    primary expression. *)
Definition binop_at (lvl : nat) (t : token) : option binop :=
  match lvl, t with
  | 0%nat, t_or => Some b_or
  | 1%nat, t_xor => Some b_xor
  | 2%nat, t_and => Some b_and
  | 3%nat, t_eq => Some b_eq
  | 3%nat, t_ne => Some b_ne
  | 4%nat, t_shl => Some b_shl
  | 5%nat, t_mul => Some b_mul
  | 5%nat, t_div => Some b_div
  | _, _ => None
  end.

(** Recursive descent: an expression of level [lvl] is a chain of
    expressions of the next level joined, left to right, by the operators
    of [lvl]. *)
Fixpoint parse_level (fuel lvl : nat) (ts : list token) : option (expr * list token) :=
  match fuel with
  | O => None
  | S f =>
      if (lvl <? 6)%nat then
        match parse_level f (S lvl) ts with
        | Some (e, rest) => parse_more f lvl e rest
        | None => None
        end
      else if (lvl =? 6)%nat then
        match ts with
        | t_not :: rest =>
            match parse_level f 6 rest with
            | Some (e, rest') => Some (e_not e, rest')
            | None => None
            end
        | _ => parse_level f 7 ts
        end
      else
        match ts with
        | t_int n :: rest => Some (e_int n, rest)
        | t_real q :: rest => Some (e_real q, rest)
        | t_var :: rest => Some (e_var, rest)
        | t_lparen :: rest =>
            match parse_level f 0 rest with
            | Some (e, t_rparen :: rest') => Some (e, rest')
            | _ => None
            end
        | _ => None
        end
  end
with parse_more (fuel lvl : nat) (acc : expr) (ts : list token)
  : option (expr * list token) :=
  match fuel with
  | O => None
  | S f =>
      match ts with
      | t :: rest =>
          match binop_at lvl t with
          | Some op =>
              match parse_level f (S lvl) rest with
              | Some (e, rest') => parse_more f lvl (e_bin op acc e) rest'
              | None => None
              end
          | None => Some (acc, ts)
          end
      | [] => Some (acc, [])
      end
  end.

(** A whole expression: every token is used. *)
Definition parse (ts : list token) : option expr :=
  match parse_level (10 * (List.length ts + 1)) 0 ts with
  | Some (e, []) => Some e
  | _ => None
  end.

(** The value of an [int] expression when the user's operand is [v].
    Floating literals, [*] and [/] are no part of it.  [==] and [!=] give 1
    or 0; [~] is the complement in two's complement. *)
Fixpoint eval_int (v : Z) (e : expr) : option Z :=
  match e with
  | e_int n => Some n
  | e_real _ => None
  | e_var => Some v
  | e_not a => option_map Z.lnot (eval_int v a)
  | e_bin op l r =>
      match eval_int v l, eval_int v r with
      | Some a, Some b =>
          match op with
          | b_or => Some (Z.lor a b)
          | b_xor => Some (Z.lxor a b)
          | b_and => Some (Z.land a b)
          | b_eq => Some (if a =? b then 1 else 0)
          | b_ne => Some (if a =? b then 0 else 1)
          | b_shl => Some (Z.shiftl a b)
          | b_mul | b_div => None
          end
      | _, _ => None
      end
  end.

(** The value of a floating expression when the user's operand is [x], in
    the arithmetic whose product is [mul], whose quotient is [div] and in
    which the floating literal of decimal value [q] has the value [lit q].
    Integer literals and the operators on integers are no part of it. *)
Fixpoint eval_float {T : Type} (mul div : T -> T -> T) (lit : Q -> T) (x : T) (e : expr)
  : option T :=
  match e with
  | e_real q => Some (lit q)
  | e_var => Some x
  | e_bin op l r =>
      match eval_float mul div lit x l, eval_float mul div lit x r with
      | Some a, Some b =>
          match op with
          | b_mul => Some (mul a b)
          | b_div => Some (div a b)
          | _ => None
          end
      | _, _ => None
      end
  | e_int _ | e_not _ => None
  end.

(** What a line of C evaluates to after preprocessing and parsing. *)
Definition compiled_int (v : Z) (ts : list token) : option Z :=
  match parse (preprocess 8 ts) with
  | Some e => eval_int v e
  | None => None
  end.

Definition compiled_float {T : Type} (mul div : T -> T -> T) (lit : Q -> T) (x : T)
  (ts : list token) : option T :=
  match parse (preprocess 8 ts) with
  | Some e => eval_float mul div lit x e
  | None => None
  end.

(** The binary64 value of each floating literal of lines 51 to 58, the
    double nearest its decimal value; no other literal occurs there. *)
Definition double_of_literal (q : Q) : float :=
  if Qeq_bool q 3.14159265358979323846 then 0x1.921fb54442d18p+1%float
  else if Qeq_bool q 1.77245385 then 0x1.c5bf89176b569p+0%float
  else if Qeq_bool q 2.997924562e8 then 0x1.1de7848333333p+28%float
  else if Qeq_bool q 6.626196e-34 then 0x1.b862e207937ep-111%float
  else if Qeq_bool q 1.380622e-23 then 0x1.0b0d1711e3d9fp-76%float
  else if Qeq_bool q 4.0 then 0x1p+2%float
  else if Qeq_bool q 100 then 0x1.9p+6%float
  else nan.

(** A line of C in binary64, the arithmetic of a C [double]. *)
Definition compiled_double (x : float) (ts : list token) : option float :=
  compiled_float PrimFloat.mul PrimFloat.div double_of_literal x ts.

(** The tokens of [(1 << b)], and of the chain [(1 << b1) | (1 << b2) | ...]. *)
Definition group_tokens (b : Z) : list token :=
  [t_lparen; t_int 1; t_shl; t_int b; t_rparen].

Fixpoint chain_tokens (bits : list Z) : list token :=
  match bits with
  | [] => []
  | b :: rest =>
      match rest with
      | [] => group_tokens b
      | _ :: _ => group_tokens b ++ t_or :: chain_tokens rest
      end
  end.

(** No name of a macro is left among the tokens. *)
Definition macro_free (ts : list token) : bool :=
  forallb (fun t => match t with
                    | t_bit _ | t_mask _ | t_phys _ => false
                    | _ => true
                    end) ts.

(** The value the header's author means by each mask name. *)
Definition DS_mask_named (m : macro) : Z :=
  match m with
  | m_x => DS_mask_x
  | m_neighbours => DS_mask_neighbours
  | m_velocity => DS_mask_velocity
  | m_density => DS_mask_density
  | m_abundance => DS_mask_abundance
  | m_turb_doppler => DS_mask_turb_doppler
  | m_temperatures => DS_mask_temperatures
  | m_ACOEFF => DS_mask_ACOEFF
  | m_1 => DS_mask_1
  | m_2 => DS_mask_2
  | m_3 => DS_mask_3
  | m_populations => DS_mask_populations
  | m_4 => DS_mask_4
  | m_all => DS_mask_all
  end.

(** The masks whose replacement text is one parenthesised group. *)
Definition parenthesised (m : macro) : bool :=
  match m with
  | m_x | m_1 => true
  | _ => false
  end.

(** The data stage from which on the mask of an attribute group is covered. *)
Definition first_stage (a : attribute) : Z :=
  match a with
  | attr_x => 1
  | attr_neighbours => 2
  | attr_populations => 4
  | _ => 3
  end.

(** The attribute groups whose mask the mask of [a] carries along. *)
Definition carries (a b : attribute) : bool :=
  match a, b with
  | _, attr_x => true
  | attr_populations, _ => true
  | attr_ACOEFF, (attr_neighbours | attr_velocity | attr_ACOEFF) => true
  | attr_neighbours, attr_neighbours => true
  | attr_velocity, attr_velocity => true
  | attr_density, attr_density => true
  | attr_abundance, attr_abundance => true
  | attr_turb_doppler, attr_turb_doppler => true
  | attr_temperatures, attr_temperatures => true
  | _, _ => false
  end.

(** ** Facts about the masks *)

Section MaskFacts.

Lemma includes_bits_refl (a : Z) : includes_bits a a.
Proof. intros i Hi; exact Hi. Qed.

Lemma includes_bits_trans (a b c : Z) :
  includes_bits a b -> includes_bits b c -> includes_bits a c.
Proof. intros Hab Hbc i Hi. apply Hab, Hbc, Hi. Qed.

Lemma includes_bits_lor_l (a b : Z) : includes_bits (Z.lor a b) a.
Proof. intros i Hi. rewrite Z.lor_spec, Hi. reflexivity. Qed.

Lemma includes_bits_lor_r (a b : Z) : includes_bits (Z.lor a b) b.
Proof. intros i Hi. rewrite Z.lor_spec, Hi. apply orb_true_r. Qed.

Lemma includes_bits_lor_intro (big a b : Z) :
  includes_bits big a -> includes_bits big b -> includes_bits big (Z.lor a b).
Proof.
  intros Ha Hb i Hi. rewrite Z.lor_spec in Hi.
  apply orb_true_iff in Hi. destruct Hi as [Hi | Hi]; [apply Ha | apply Hb]; exact Hi.
Qed.

Lemma includes_bits_land (big small : Z) :
  includes_bits big small <-> Z.land big small = small.
Proof.
  split.
  - intros H. apply Z.bits_inj'. intros i _. rewrite Z.land_spec.
    destruct (Z.testbit small i) eqn:Hs.
    + rewrite (H i Hs). reflexivity.
    + apply andb_false_r.
  - intros H i Hi. rewrite <- H, Z.land_spec in Hi.
    apply andb_true_iff in Hi. exact (proj1 Hi).
Qed.

Lemma testbit_shift1 (b i : Z) :
  0 <= b -> Z.testbit (Z.shiftl 1 b) i = (i =? b).
Proof.
  intros Hb. rewrite Z.shiftl_1_l, Z.pow2_bits_eqb by exact Hb. apply Z.eqb_sym.
Qed.

Lemma DS_bit_nonneg (a : attribute) : 0 <= DS_bit a.
Proof. destruct a; discriminate. Qed.

(** Each named mask is the value of its token-by-token expansion. *)
Lemma DS_masks_are_their_expansions :
  macro_value m_x = DS_mask_x
  /\ macro_value m_neighbours = DS_mask_neighbours
  /\ macro_value m_velocity = DS_mask_velocity
  /\ macro_value m_density = DS_mask_density
  /\ macro_value m_abundance = DS_mask_abundance
  /\ macro_value m_turb_doppler = DS_mask_turb_doppler
  /\ macro_value m_temperatures = DS_mask_temperatures
  /\ macro_value m_ACOEFF = DS_mask_ACOEFF
  /\ macro_value m_1 = DS_mask_1
  /\ macro_value m_2 = DS_mask_2
  /\ macro_value m_3 = DS_mask_3
  /\ macro_value m_populations = DS_mask_populations
  /\ macro_value m_4 = DS_mask_4
  /\ macro_value m_all = DS_mask_all.
Proof. repeat split; vm_compute; reflexivity. Qed.

(** Depth 6 exhausts every macro: one more level changes nothing. *)
Lemma expansion_is_complete (m : macro) :
  expand 7 (replacement m) = expand 6 (replacement m).
Proof. destruct m; reflexivity. Qed.

(** No mask leaves the range of [int], and every shift count is below 31. *)
Lemma DS_masks_fit_int :
  Forall in_int_range
    [DS_mask_x; DS_mask_neighbours; DS_mask_velocity; DS_mask_density;
     DS_mask_abundance; DS_mask_turb_doppler; DS_mask_temperatures;
     DS_mask_ACOEFF; DS_mask_1; DS_mask_2; DS_mask_3; DS_mask_populations;
     DS_mask_4; DS_mask_all]
  /\ forall a, 0 <= DS_bit a < 31.
Proof.
  split.
  - repeat (apply Forall_cons; [vm_compute; split; discriminate | ]). apply Forall_nil.
  - intros a; destruct a; vm_compute; split; discriminate || reflexivity.
Qed.

Lemma DS_mask_2_includes_1 : includes_bits DS_mask_2 DS_mask_1.
Proof. unfold DS_mask_2, DS_mask_1, DS_mask_neighbours. apply includes_bits_lor_r. Qed.

Lemma DS_mask_3_includes_2 : includes_bits DS_mask_3 DS_mask_2.
Proof.
  unfold DS_mask_3.
  do 4 (eapply includes_bits_trans; [apply includes_bits_lor_l | ]).
  apply includes_bits_lor_l.
Qed.

Lemma DS_mask_4_includes_3 : includes_bits DS_mask_4 DS_mask_3.
Proof. unfold DS_mask_4, DS_mask_populations. apply includes_bits_lor_r. Qed.

Lemma DS_mask_ACOEFF_includes_neighbours : includes_bits DS_mask_ACOEFF DS_mask_neighbours.
Proof.
  unfold DS_mask_ACOEFF.
  eapply includes_bits_trans; [apply includes_bits_lor_l | apply includes_bits_lor_r].
Qed.

Lemma DS_mask_ACOEFF_includes_velocity : includes_bits DS_mask_ACOEFF DS_mask_velocity.
Proof. unfold DS_mask_ACOEFF. apply includes_bits_lor_r. Qed.

(** A compound mask holds its own bit and the positions bit. *)
Lemma DS_mask_includes_x (a : attribute) :
  a <> attr_populations -> includes_bits (DS_mask a) DS_mask_x.
Proof.
  intros Ha. destruct a; simpl;
    unfold DS_mask_neighbours, DS_mask_velocity, DS_mask_density, DS_mask_abundance,
      DS_mask_turb_doppler, DS_mask_temperatures.
  - apply includes_bits_refl.
  - apply includes_bits_lor_r.
  - apply includes_bits_lor_r.
  - apply includes_bits_lor_r.
  - apply includes_bits_lor_r.
  - apply includes_bits_lor_r.
  - apply includes_bits_lor_r.
  - eapply includes_bits_trans; [apply DS_mask_ACOEFF_includes_velocity | ].
    apply includes_bits_lor_r.
  - contradiction.
Qed.

(** Stage 3 brings the velocity bit as well: [DS_mask_ACOEFF] carries it. *)
Lemma stage_3_adds_velocity : stage_adds 3 attr_velocity.
Proof.
  split; [reflexivity | ].
  apply (includes_bits_trans _ _ _ (includes_bits_lor_r _ DS_mask_ACOEFF)
           DS_mask_ACOEFF_includes_velocity).
  reflexivity.
Qed.

Lemma DS_mask_x_bits (i : Z) : Z.testbit DS_mask_x i = (i =? DS_bit_x).
Proof. unfold DS_mask_x. apply testbit_shift1. discriminate. Qed.

End MaskFacts.

Create HintDb ds_masks.
#[local] Hint Resolve includes_bits_refl DS_mask_2_includes_1 DS_mask_3_includes_2
  DS_mask_4_includes_3 : ds_masks.

Section DataStages.

(** C2 (data-stage masks are monotone).  For stages [1 <= j <= k <= 4] every
    bit of [DS_mask_j] is a bit of [DS_mask_k]; hence a grid whose data-stage
    word holds all bits of the mask of stage [k] holds all bits of the mask
    of every earlier stage [j].  Stage 1 is the positions bit alone; stage 2
    brings the neighbours bit; stage 3 brings the density, abundance,
    turbulent Doppler width, temperatures and velocity-coefficient bits;
    stage 4 brings the populations bit. *)
Theorem DS_stage_masks_monotone (j k : Z) :
  1 <= j -> j <= k -> k <= 4 ->
  includes_bits (DS_mask_stage k) (DS_mask_stage j)
  /\ (forall dataFlags : Z,
        includes_bits dataFlags (DS_mask_stage k) ->
        includes_bits dataFlags (DS_mask_stage j))
  /\ (forall i : Z, Z.testbit (DS_mask_stage 1) i = (i =? DS_bit_x))
  /\ stage_adds 2 attr_neighbours
  /\ (forall a, In a [attr_density; attr_abundance; attr_turb_doppler;
                      attr_temperatures; attr_ACOEFF] -> stage_adds 3 a)
  /\ stage_adds 4 attr_populations.
Proof.
  intros H1 Hjk H4.
  assert (Hmono : includes_bits (DS_mask_stage k) (DS_mask_stage j)).
  { assert (Hj : j = 1 \/ j = 2 \/ j = 3 \/ j = 4) by lia.
    assert (Hk : k = 1 \/ k = 2 \/ k = 3 \/ k = 4) by lia.
    destruct Hj as [-> | [-> | [-> | ->]]];
      destruct Hk as [-> | [-> | [-> | ->]]]; try lia; simpl;
      eauto 6 using includes_bits_trans with ds_masks. }
  split; [exact Hmono | ].
  split.
  { intros dataFlags Hk. eapply includes_bits_trans; [exact Hk | exact Hmono]. }
  split; [intros i; apply DS_mask_x_bits | ].
  split; [split; reflexivity | ].
  split; [ | split; reflexivity].
  intros a Ha. simpl in Ha.
  destruct Ha as [<- | [<- | [<- | [<- | [<- | []]]]]]; split; reflexivity.
Qed.

Lemma DS_stage_masks_monotone_witness :
  1 <= 2 /\ 2 <= 4 /\ 4 <= 4
  /\ includes_bits (DS_mask_stage 4) (DS_mask_stage 2)
  /\ includes_bits 1023 (DS_mask_stage 4)
  /\ includes_bits 1023 (DS_mask_stage 2).
Proof.
  assert (H12 : 1 <= 2) by lia.
  assert (H24 : 2 <= 4) by lia.
  assert (H44 : 4 <= 4) by lia.
  assert (Hgrid : includes_bits 1023 (DS_mask_stage 4))
    by (apply includes_bits_land; reflexivity).
  destruct (DS_stage_masks_monotone 2 4 H12 H24 H44) as [Hmono [Hflags _]].
  split; [exact H12 | split; [exact H24 | split; [exact H44 | ]]].
  split; [exact Hmono | split; [exact Hgrid | exact (Hflags 1023 Hgrid)]].
Defined.

(** C10 (every compound mask implies the positions bit).  The masks of
    neighbours, velocity, density, abundance, turbulent Doppler width,
    temperatures and velocity coefficients each hold their own bit and
    every bit of [DS_mask_x], which is bit 0; [DS_mask_ACOEFF] moreover holds
    every bit of [DS_mask_neighbours] and of [DS_mask_velocity], so a
    data-stage word that holds all bits of [DS_mask_ACOEFF] has the
    positions, neighbours and velocity bits set. *)
Theorem DS_compound_masks_include_positions :
  (forall a, In a [attr_neighbours; attr_velocity; attr_density; attr_abundance;
                   attr_turb_doppler; attr_temperatures; attr_ACOEFF] ->
     includes_bits (DS_mask a) DS_mask_x
     /\ Z.testbit (DS_mask a) (DS_bit a) = true)
  /\ (forall i : Z, Z.testbit DS_mask_x i = true <-> i = 0)
  /\ includes_bits DS_mask_ACOEFF DS_mask_neighbours
  /\ includes_bits DS_mask_ACOEFF DS_mask_velocity
  /\ (forall dataFlags : Z,
        includes_bits dataFlags DS_mask_ACOEFF ->
        Z.testbit dataFlags DS_bit_ACOEFF = true
        /\ Z.testbit dataFlags DS_bit_x = true
        /\ Z.testbit dataFlags DS_bit_neighbours = true
        /\ Z.testbit dataFlags DS_bit_velocity = true).
Proof.
  split.
  { intros a Ha. split.
    - apply DS_mask_includes_x. intros ->. simpl in Ha.
      repeat (destruct Ha as [Ha | Ha]; [discriminate Ha | ]). exact Ha.
    - simpl in Ha.
      destruct Ha as [<- | [<- | [<- | [<- | [<- | [<- | [<- | []]]]]]]]; reflexivity. }
  split.
  { intros i. rewrite DS_mask_x_bits. unfold DS_bit_x. apply Z.eqb_eq. }
  split; [apply DS_mask_ACOEFF_includes_neighbours | ].
  split; [apply DS_mask_ACOEFF_includes_velocity | ].
  intros dataFlags H. repeat split; apply H; reflexivity.
Qed.

Lemma DS_compound_masks_include_positions_witness :
  includes_bits 135 DS_mask_ACOEFF
  /\ Z.testbit 135 DS_bit_ACOEFF = true
  /\ Z.testbit 135 DS_bit_x = true
  /\ Z.testbit 135 DS_bit_neighbours = true
  /\ Z.testbit 135 DS_bit_velocity = true.
Proof.
  split; [apply includes_bits_refl | ].
  apply (proj2 (proj2 (proj2 (proj2 DS_compound_masks_include_positions))) 135).
  apply includes_bits_refl.
Defined.

(** X8 (one bit per attribute group).  The nine attribute groups have the
    nine bit positions 0 to 8, one each: no two groups share a position,
    every position from 0 to 8 belongs to a group, and the word
    [1 << DS_bit a] has that single bit. *)
Theorem DS_bits_one_per_attribute :
  (forall a : attribute, 0 <= DS_bit a <= 8)
  /\ (forall a b : attribute, DS_bit a = DS_bit b -> a = b)
  /\ (forall i : Z, 0 <= i <= 8 -> exists a, DS_bit a = i)
  /\ (List.length all_attributes = 9%nat /\ NoDup all_attributes
      /\ forall a, In a all_attributes)
  /\ (forall (a : attribute) (i : Z),
        Z.testbit (Z.shiftl 1 (DS_bit a)) i = true <-> i = DS_bit a).
Proof.
  split; [intros a; destruct a; vm_compute; split; discriminate | ].
  split; [intros a b; destruct a, b; simpl; intros H; try reflexivity; discriminate H | ].
  split.
  { intros i Hi.
    assert (Hc : i = 0 \/ i = 1 \/ i = 2 \/ i = 3 \/ i = 4 \/ i = 5 \/ i = 6
                 \/ i = 7 \/ i = 8) by lia.
    destruct Hc as [-> | [-> | [-> | [-> | [-> | [-> | [-> | [-> | ->]]]]]]]].
    - exists attr_x; reflexivity.
    - exists attr_neighbours; reflexivity.
    - exists attr_velocity; reflexivity.
    - exists attr_density; reflexivity.
    - exists attr_abundance; reflexivity.
    - exists attr_turb_doppler; reflexivity.
    - exists attr_temperatures; reflexivity.
    - exists attr_ACOEFF; reflexivity.
    - exists attr_populations; reflexivity. }
  split.
  { split; [reflexivity | split].
    - unfold all_attributes.
      repeat (apply NoDup_cons; [simpl; intuition discriminate | ]). apply NoDup_nil.
    - intros a; destruct a; simpl; tauto. }
  intros a i. rewrite testbit_shift1 by apply DS_bit_nonneg. apply Z.eqb_eq.
Qed.

End DataStages.

Section ConfigurationRecord.

Lemma array_get_cons {A : Type} {n : nat} (h : A) (t : Vector.t A n) (i : Z) :
  array_get (Vector.cons A h n t) i = if i =? 0 then Some h else array_get t (i - 1).
Proof.
  unfold array_get. rewrite Vector.to_list_cons.
  destruct (Z.eqb_spec i 0) as [-> | Hne].
  - reflexivity.
  - destruct (Z.ltb_spec i 0) as [Hneg | Hpos].
    + replace (0 <=? i) with false by (symmetry; apply Z.leb_gt; lia).
      replace (0 <=? i - 1) with false by (symmetry; apply Z.leb_gt; lia).
      reflexivity.
    + replace (0 <=? i) with true by (symmetry; apply Z.leb_le; lia).
      replace (0 <=? i - 1) with true by (symmetry; apply Z.leb_le; lia).
      replace (i <? Z.of_nat (S n)) with (i - 1 <? Z.of_nat n)
        by (destruct (Z.ltb_spec (i - 1) (Z.of_nat n)), (Z.ltb_spec i (Z.of_nat (S n)));
            try reflexivity; lia).
      replace (Z.to_nat i) with (S (Z.to_nat (i - 1))) by lia.
      reflexivity.
Qed.

Lemma array_get_in_range {A : Type} {n : nat} (a : Vector.t A n) (i : Z) :
  array_get a i <> None <-> 0 <= i < Z.of_nat n.
Proof.
  unfold array_get.
  destruct ((0 <=? i) && (i <? Z.of_nat n)) eqn:Hin.
  - apply andb_true_iff in Hin. destruct Hin as [H0 Hn].
    apply Z.leb_le in H0. apply Z.ltb_lt in Hn.
    split; [lia | ]. intros _. apply nth_error_Some.
    rewrite Vector.length_to_list. lia.
  - apply andb_false_iff in Hin. split; [congruence | ].
    intros [H0 Hn]. exfalso. destruct Hin as [Hin | Hin].
    + apply Z.leb_gt in Hin. lia.
    + apply Z.ltb_ge in Hin. lia.
Qed.

Lemma array_get_set {A : Type} {n : nat} (a : Vector.t A n) (i j : Z) (v : A) :
  array_get (array_set a i v) j
  = if (j =? i) && (0 <=? i) && (i <? Z.of_nat n) then Some v else array_get a j.
Proof.
  revert i j. induction a as [ | h m t IH]; intros i j.
  - cbn [array_set].
    destruct ((j =? i) && (0 <=? i) && (i <? Z.of_nat 0)) eqn:Hc; [ | reflexivity].
    apply andb_true_iff in Hc. destruct Hc as [Hc Hn].
    apply andb_true_iff in Hc. destruct Hc as [_ H0].
    apply Z.leb_le in H0. apply Z.ltb_lt in Hn. simpl in Hn. lia.
  - cbn [array_set]. destruct (Z.eqb_spec i 0) as [-> | Hi].
    + rewrite !array_get_cons. destruct (Z.eqb_spec j 0) as [-> | Hj].
      * reflexivity.
      * reflexivity.
    + rewrite !array_get_cons, IH.
      destruct (Z.eqb_spec j 0) as [-> | Hj].
      * replace (0 =? i) with false by (symmetry; apply Z.eqb_neq; lia). reflexivity.
      * replace (j - 1 =? i - 1) with (j =? i)
          by (destruct (Z.eqb_spec j i), (Z.eqb_spec (j - 1) (i - 1)); try reflexivity; lia).
        replace (0 <=? i - 1) with (0 <=? i)
          by (destruct (Z.leb_spec 0 i), (Z.leb_spec 0 (i - 1)); try reflexivity; lia).
        replace (i - 1 <? Z.of_nat m) with (i <? Z.of_nat (S m))
          by (destruct (Z.ltb_spec (i - 1) (Z.of_nat m)), (Z.ltb_spec i (Z.of_nat (S m)));
              try reflexivity; lia).
        reflexivity.
Qed.

(** C9 (four grid snapshot stages).  [NUM_GRID_STAGES] is 4 and there are
    four stage masks, pairwise different, the mask of stage [i + 1] standing
    at index [i].  Every configuration record carries exactly four write
    flags and exactly four output file names, with a slot at index [i]
    exactly when [0 <= i < 4].  A snapshot can be requested at any of the
    four slots: after [writeGridAtStage[i] = 1] and [gridOutFiles[i] = name]
    the record holds the flag and the name at slot [i], and every other
    slot is as it was. *)
Theorem four_grid_snapshot_stages :
  NUM_GRID_STAGES = 4%nat
  /\ List.length grid_stage_masks = NUM_GRID_STAGES
  /\ NoDup grid_stage_masks
  /\ (forall i : Z, 0 <= i < 4 ->
        nth_error grid_stage_masks (Z.to_nat i) = Some (DS_mask_stage (i + 1)))
  /\ (forall par : inputPars,
        List.length (Vector.to_list (writeGridAtStage par)) = 4%nat
        /\ List.length (Vector.to_list (gridOutFiles par)) = 4%nat)
  /\ (forall (par : inputPars) (i : Z),
        (array_get (writeGridAtStage par) i <> None <-> 0 <= i < 4)
        /\ (array_get (gridOutFiles par) i <> None <-> 0 <= i < 4))
  /\ (forall (par : inputPars) (i : Z) (name : option string),
        0 <= i < 4 ->
        let par' := set_gridOutFiles (set_writeGridAtStage par i true) i name in
        array_get (writeGridAtStage par') i = Some true
        /\ array_get (gridOutFiles par') i = Some name
        /\ forall j : Z, j <> i ->
             array_get (writeGridAtStage par') j = array_get (writeGridAtStage par) j
             /\ array_get (gridOutFiles par') j = array_get (gridOutFiles par) j).
Proof.
  split; [reflexivity | ].
  split; [reflexivity | ].
  split.
  { unfold grid_stage_masks.
    repeat (apply NoDup_cons; [simpl; intros Hin; repeat destruct Hin as [Hin | Hin];
                               try discriminate Hin; exact Hin | ]).
    apply NoDup_nil. }
  split.
  { intros i Hi.
    assert (Hc : i = 0 \/ i = 1 \/ i = 2 \/ i = 3) by lia.
    destruct Hc as [-> | [-> | [-> | ->]]]; reflexivity. }
  split.
  { intros par. rewrite !Vector.length_to_list. split; reflexivity. }
  split.
  { intros par i. rewrite !array_get_in_range. unfold NUM_GRID_STAGES. simpl. tauto. }
  intros par i name Hi par'. subst par'.
  unfold set_gridOutFiles, set_writeGridAtStage; cbn [writeGridAtStage gridOutFiles].
  rewrite !array_get_set.
  assert (Hin : (0 <=? i) && (i <? Z.of_nat NUM_GRID_STAGES) = true).
  { apply andb_true_iff. split; [apply Z.leb_le | apply Z.ltb_lt; unfold NUM_GRID_STAGES; simpl];
      lia. }
  rewrite Z.eqb_refl. rewrite <- !andb_assoc. rewrite Hin. simpl.
  split; [reflexivity | split; [reflexivity | ]].
  intros j Hj. rewrite !array_get_set.
  replace (j =? i) with false by (symmetry; apply Z.eqb_neq; exact Hj).
  split; reflexivity.
Qed.

Lemma four_grid_snapshot_stages_witness :
  0 <= 3 < 4
  /\ array_get (writeGridAtStage
                  (set_gridOutFiles (set_writeGridAtStage zeroed_inputPars 3 true) 3 None)) 3
     = Some true
  /\ array_get (writeGridAtStage
                  (set_gridOutFiles (set_writeGridAtStage zeroed_inputPars 3 true) 3 None)) 2
     = Some false.
Proof.
  assert (H3 : 0 <= 3 < 4) by lia.
  split; [exact H3 | ].
  split; [ | reflexivity].
  exact (proj1 (proj2 (proj2 (proj2 (proj2 (proj2 (proj2 four_grid_snapshot_stages)))))
                  zeroed_inputPars 3 None H3)).
Defined.

End ConfigurationRecord.

Ltac ds_bits :=
  unfold DS_bit, first_stage, DS_bit_x, DS_bit_neighbours, DS_bit_velocity,
    DS_bit_density, DS_bit_abundance, DS_bit_turb_doppler, DS_bit_temperatures,
    DS_bit_ACOEFF, DS_bit_populations in *.

Section MaskTables.

Local Open Scope Z_scope.

(** Whether one mask holds another is settled by one [&]. *)
Lemma includes_bits_decide (big small : Z) :
  (includes_bits big small <-> (Z.land big small =? small) = true).
Proof. rewrite Z.eqb_eq. apply includes_bits_land. Qed.

Lemma DS_mask_stage_ones (k : Z) :
  1 <= k <= 4 ->
  exists w, 0 <= w /\ DS_mask_stage k = Z.ones w
            /\ forall a, DS_bit a < w <-> first_stage a <= k.
Proof.
  intros Hk. assert (Hc : k = 1 \/ k = 2 \/ k = 3 \/ k = 4) by lia.
  destruct Hc as [-> | [-> | [-> | ->]]];
    [exists 1 | exists 2 | exists 8 | exists 9];
    (split; [lia | split; [reflexivity | ]]);
    intros a; destruct a; ds_bits; lia.
Qed.

(** X1 (the bits and the attribute masks of a data stage).  For a stage [k] from
    1 to 4 the mask [DS_mask_k] has a bit exactly where an attribute group
    whose first stage is at most [k] has its own bit, and it holds the whole
    mask of an attribute group exactly when that group's first stage is at
    most [k]: positions from stage 1, neighbours from stage 2, velocity,
    density, abundance, Doppler width, temperatures and velocity
    coefficients from stage 3, populations at stage 4.  The complete mask
    has the nine attribute bits and no other. *)
Theorem DS_stage_masks_exact (k : Z) :
  1 <= k <= 4 ->
  (forall i : Z,
      Z.testbit (DS_mask_stage k) i = true
      <-> exists a, DS_bit a = i /\ first_stage a <= k)
  /\ (forall a : attribute,
        includes_bits (DS_mask_stage k) (DS_mask a) <-> first_stage a <= k)
  /\ (forall i : Z, Z.testbit DS_mask_all i = true <-> exists a, DS_bit a = i).
Proof.
  intros Hk. destruct (DS_mask_stage_ones k Hk) as [w [Hw [Hones Hbits]]].
  split; [ | split].
  - intros i. rewrite Hones, Z.ones_spec_iff by exact Hw. split.
    + intros Hi.
      assert (Hw9 : w <= 9).
      { destruct (Z.le_gt_cases w 9) as [Hle | Hgt]; [exact Hle | exfalso].
        assert (H9 : Z.testbit (DS_mask_stage k) 9 = true)
          by (rewrite Hones; apply Z.ones_spec_low; lia).
        assert (Hc : k = 1 \/ k = 2 \/ k = 3 \/ k = 4) by lia.
        destruct Hc as [-> | [-> | [-> | ->]]]; discriminate H9. }
      assert (Hc : i = 0 \/ i = 1 \/ i = 2 \/ i = 3 \/ i = 4 \/ i = 5 \/ i = 6
                   \/ i = 7 \/ i = 8) by lia.
      destruct Hc as [-> | [-> | [-> | [-> | [-> | [-> | [-> | [-> | ->]]]]]]]];
        [exists attr_x | exists attr_neighbours | exists attr_velocity
         | exists attr_density | exists attr_abundance | exists attr_turb_doppler
         | exists attr_temperatures | exists attr_ACOEFF | exists attr_populations];
        (split; [reflexivity | apply Hbits; ds_bits; lia]).
    + intros [a [<- Ha]]. split; [apply DS_bit_nonneg | apply Hbits, Ha].
  - intros a. rewrite includes_bits_decide.
    assert (Hc : k = 1 \/ k = 2 \/ k = 3 \/ k = 4) by lia.
    destruct Hc as [-> | [-> | [-> | ->]]]; destruct a; ds_bits;
      split; intros H; first [lia | reflexivity | vm_compute in H; discriminate H].
  - intros i. change DS_mask_all with (Z.ones 9).
    rewrite Z.ones_spec_iff by lia. split.
    + intros Hi.
      assert (Hc : i = 0 \/ i = 1 \/ i = 2 \/ i = 3 \/ i = 4 \/ i = 5 \/ i = 6
                   \/ i = 7 \/ i = 8) by lia.
      destruct Hc as [-> | [-> | [-> | [-> | [-> | [-> | [-> | [-> | ->]]]]]]]];
        [exists attr_x | exists attr_neighbours | exists attr_velocity
         | exists attr_density | exists attr_abundance | exists attr_turb_doppler
         | exists attr_temperatures | exists attr_ACOEFF | exists attr_populations];
        reflexivity.
    + intros [a <-]. destruct a; ds_bits; lia.
Qed.

Lemma DS_stage_masks_exact_witness :
  1 <= 3 <= 4
  /\ includes_bits (DS_mask_stage 3) (DS_mask attr_velocity)
  /\ ~ includes_bits (DS_mask_stage 2) (DS_mask attr_velocity)
  /\ Z.testbit (DS_mask_stage 3) 8 = false.
Proof.
  assert (H3 : 1 <= 3 <= 4) by lia.
  assert (H2 : 1 <= 2 <= 4) by lia.
  destruct (DS_stage_masks_exact 3 H3) as [Hbit3 [Hmask3 _]].
  destruct (DS_stage_masks_exact 2 H2) as [_ [Hmask2 _]].
  split; [exact H3 | split; [ | split]].
  - apply Hmask3. simpl. lia.
  - intros Hin. apply Hmask2 in Hin. simpl in Hin. lia.
  - destruct (Z.testbit (DS_mask_stage 3) 8) eqn:Hb; [ | reflexivity].
    apply Hbit3 in Hb. destruct Hb as [a [Ha Hs]].
    destruct a; try discriminate Ha. simpl in Hs. lia.
Defined.

(** X2 (which attribute masks hold which).  The mask of one attribute group
    holds the mask of another exactly as [carries] lists: every mask holds
    the positions mask, the velocity-coefficient mask holds the neighbours
    and velocity masks, the populations mask holds all, and nothing else
    holds anything but itself.  In particular different attribute groups
    have different masks, and holding is antisymmetric. *)
Theorem DS_attribute_masks_order :
  (forall a b : attribute, includes_bits (DS_mask a) (DS_mask b) <-> carries a b = true)
  /\ (forall a b : attribute, DS_mask a = DS_mask b -> a = b)
  /\ (forall a b : attribute,
        includes_bits (DS_mask a) (DS_mask b) -> includes_bits (DS_mask b) (DS_mask a) ->
        a = b).
Proof.
  assert (Horder : forall a b : attribute,
             includes_bits (DS_mask a) (DS_mask b) <-> carries a b = true).
  { intros a b. rewrite includes_bits_decide.
    destruct a, b; cbv; split; intros H; try reflexivity; discriminate H. }
  split; [exact Horder | split].
  - intros a b. destruct a, b; intros H; try reflexivity; vm_compute in H; discriminate H.
  - intros a b Hab Hba. apply Horder in Hab. apply Horder in Hba.
    destruct a, b; try reflexivity; discriminate.
Qed.

Lemma DS_attribute_masks_order_witness :
  includes_bits (DS_mask attr_ACOEFF) (DS_mask attr_velocity)
  /\ carries attr_ACOEFF attr_velocity = true
  /\ ~ includes_bits (DS_mask attr_density) (DS_mask attr_velocity).
Proof.
  destruct DS_attribute_masks_order as [Horder _].
  split; [apply Horder; reflexivity | split; [reflexivity | ]].
  intros Hin. apply Horder in Hin. discriminate Hin.
Defined.

End MaskTables.

Ltac run_line :=
  cbv - [Z.lor Z.land Z.lxor Z.lnot Z.shiftl Z.eqb Z.testbit includes_bits].

Section MacroText.

Local Open Scope Z_scope.



Lemma includes_bits_land_of (big v c : Z) :
  includes_bits big c -> includes_bits big (Z.land v c).
Proof.
  intros H i Hi. rewrite Z.land_spec in Hi. apply andb_true_iff in Hi.
  apply H. exact (proj2 Hi).
Qed.




(** X3 (where a mask name is safe).  For every mask of the header and every
    word [v]: the name alone (a full expression, a function argument)
    evaluates to the mask's value; [v | DS_mask_m] is the bitwise or with
    that value; and with parentheses put around the name, [v & (DS_mask_m)],
    [v & ~(DS_mask_m)] and [v == (DS_mask_m)] are the and, the and with the
    complement, and the comparison with that value.  [DS_mask_x] and
    [DS_mask_1], whose text is one parenthesised group, need no added
    parentheses.  Two mask names joined by [|] give the or of their
    values. *)
Theorem DS_mask_names_where_safe (m : macro) (v : Z) :
  compiled_int v [t_mask m] = Some (DS_mask_named m)
  /\ compiled_int v [t_var; t_or; t_mask m] = Some (Z.lor v (DS_mask_named m))
  /\ compiled_int v [t_var; t_and; t_lparen; t_mask m; t_rparen]
     = Some (Z.land v (DS_mask_named m))
  /\ compiled_int v [t_var; t_and; t_not; t_lparen; t_mask m; t_rparen]
     = Some (Z.land v (Z.lnot (DS_mask_named m)))
  /\ compiled_int v [t_var; t_eq; t_lparen; t_mask m; t_rparen]
     = Some (if v =? DS_mask_named m then 1 else 0)
  /\ (parenthesised m = true ->
      compiled_int v [t_var; t_and; t_mask m] = Some (Z.land v (DS_mask_named m))
      /\ compiled_int v [t_var; t_and; t_not; t_mask m]
         = Some (Z.land v (Z.lnot (DS_mask_named m)))
      /\ compiled_int v [t_var; t_eq; t_mask m]
         = Some (if v =? DS_mask_named m then 1 else 0))
  /\ (forall m' : macro,
        compiled_int v [t_mask m; t_or; t_mask m']
        = Some (Z.lor (DS_mask_named m) (DS_mask_named m'))).
Proof.
  assert (Hpair : forall m' : macro,
             compiled_int v [t_mask m; t_or; t_mask m']
             = Some (Z.lor (DS_mask_named m) (DS_mask_named m')))
    by (intros m'; destruct m, m'; vm_compute; reflexivity).
  refine ((fun H => match H with
                    | conj H1 (conj H2 (conj H3 (conj H4 (conj H5 H6)))) =>
                        conj H1 (conj H2 (conj H3 (conj H4 (conj H5 (conj H6 Hpair)))))
                    end) _).
  split; [destruct m; vm_compute; reflexivity | ].
  split.
  { destruct m; run_line; rewrite <- ?Z.lor_assoc; reflexivity. }
  split; [destruct m; run_line; reflexivity | ].
  split; [destruct m; run_line; reflexivity | ].
  split; [destruct m; run_line; reflexivity | ].
  intros Hp. destruct m; try discriminate Hp; repeat split; run_line; reflexivity.
Qed.

Lemma DS_mask_names_where_safe_witness :
  parenthesised m_x = true
  /\ compiled_int 6 [t_var; t_and; t_mask m_x] = Some 0
  /\ compiled_int 6 [t_var; t_and; t_lparen; t_mask m_neighbours; t_rparen] = Some 2.
Proof.
  assert (Hp : parenthesised m_x = true) by reflexivity.
  split; [exact Hp | split].
  - exact (proj1 (proj1 (proj2 (proj2 (proj2 (proj2 (proj2
             (DS_mask_names_where_safe m_x 6)))))) Hp)).
  - exact (proj1 (proj2 (proj2 (DS_mask_names_where_safe m_neighbours 6)))).
Defined.





End MacroText.

Section PhysicalConstants.

Variable T : Type.
Variables mul div : T -> T -> T.
Variable lit : Q -> T.

(** X6 (how a derived constant is grouped).  [HPIP] and [HCKB] are bare
    chains of [*] and [/].  In every arithmetic, whatever its product, its
    quotient and the values of the literals: [x / HPIP] is
    [((((x / HPLANCK) * CLIGHT) / 4.0) / PI) / SPI], so [x] is divided by
    [HPLANCK] alone and multiplied by [CLIGHT]; [x * HPIP] is grouped from
    the left starting at [x]; only [x / (HPIP)] and [x * (HPIP)] take the
    chain as one operand.  [HCKB] behaves alike. *)
Theorem derived_constants_grouping (x : T) :
  let h := lit 6.626196e-34 in
  let c := lit 2.997924562e8 in
  let k := lit 1.380622e-23 in
  let pi := lit 3.14159265358979323846 in
  let spi := lit 1.77245385 in
  let hpip := div (div (div (mul h c) (lit 4.0)) pi) spi in
  let hckb := div (mul (mul (lit 100) h) c) k in
  compiled_float mul div lit x [t_phys c_HPIP] = Some hpip
  /\ compiled_float mul div lit x [t_phys c_HCKB] = Some hckb
  /\ compiled_float mul div lit x [t_var; t_div; t_phys c_HPIP]
     = Some (div (div (div (mul (div x h) c) (lit 4.0)) pi) spi)
  /\ compiled_float mul div lit x [t_var; t_mul; t_phys c_HPIP]
     = Some (div (div (div (mul (mul x h) c) (lit 4.0)) pi) spi)
  /\ compiled_float mul div lit x [t_var; t_div; t_phys c_HCKB]
     = Some (div (mul (mul (div x (lit 100)) h) c) k)
  /\ compiled_float mul div lit x [t_var; t_mul; t_phys c_HCKB]
     = Some (div (mul (mul (mul x (lit 100)) h) c) k)
  /\ compiled_float mul div lit x [t_var; t_div; t_lparen; t_phys c_HPIP; t_rparen]
     = Some (div x hpip)
  /\ compiled_float mul div lit x [t_var; t_mul; t_lparen; t_phys c_HPIP; t_rparen]
     = Some (mul x hpip)
  /\ compiled_float mul div lit x [t_var; t_div; t_lparen; t_phys c_HCKB; t_rparen]
     = Some (div x hckb)
  /\ compiled_float mul div lit x [t_var; t_mul; t_lparen; t_phys c_HCKB; t_rparen]
     = Some (mul x hckb).
Proof.
  cbv zeta. repeat (split; [reflexivity | ]). reflexivity.
Qed.

End PhysicalConstants.

Section PhysicalConstantsBinary64.

Local Open Scope float_scope.

(** In binary64 the grouping shows: at [x = 1] the bare quotient is about
    2.0e40 and the parenthesised one about 1.1e26; at [x = 7] the bare
    product and the parenthesised product differ in the last place; at
    [x = 1e300] both quotients overflow to infinity.  The hexadecimal
    literals are the doubles nearest 1e40, 1e27 and 1e300. *)
Lemma derived_constants_grouping_witness :
  compiled_double 1 [t_var; t_div; t_phys c_HPIP]
  = Some (1 / double_of_literal 6.626196e-34 * double_of_literal 2.997924562e8
          / double_of_literal 4.0 / double_of_literal 3.14159265358979323846
          / double_of_literal 1.77245385)
  /\ (match compiled_double 1 [t_var; t_div; t_phys c_HPIP],
            compiled_double 1 [t_var; t_div; t_lparen; t_phys c_HPIP; t_rparen] with
      | Some bare, Some whole => (0x1.d6329f1c35ca5p+132 <? bare) && (whole <? 0x1.9d971e4fe8402p+89)
      | _, _ => false
      end = true)
  /\ (match compiled_double 7 [t_var; t_mul; t_phys c_HPIP],
            compiled_double 7 [t_var; t_mul; t_lparen; t_phys c_HPIP; t_rparen] with
      | Some bare, Some whole => negb (bare =? whole)
      | _, _ => false
      end = true)
  /\ (match compiled_double 0x1.7e43c8800759cp+996 [t_var; t_div; t_phys c_HPIP],
            compiled_double 0x1.7e43c8800759cp+996
              [t_var; t_div; t_lparen; t_phys c_HPIP; t_rparen] with
      | Some bare, Some whole => (bare =? infinity) && (whole =? infinity)
      | _, _ => false
      end = true).
Proof.
  split.
  - exact (proj1 (proj2 (proj2
             (derived_constants_grouping float PrimFloat.mul PrimFloat.div
                double_of_literal 1)))).
  - repeat split; vm_compute; reflexivity.
Defined.

End PhysicalConstantsBinary64.

Section Expansion.

Local Open Scope Z_scope.

Lemma macro_free_app (ts us : list token) :
  macro_free (ts ++ us) = macro_free ts && macro_free us.
Proof. unfold macro_free. apply forallb_app. Qed.

Lemma preprocess_cons (d : nat) (t : token) (ts : list token) :
  preprocess (S d) (t :: ts) = preprocess (S d) [t] ++ preprocess (S d) ts.
Proof. cbn [preprocess flat_map]. rewrite app_nil_r. reflexivity. Qed.

Lemma preprocess_macro_free (d : nat) (ts : list token) :
  macro_free ts = true -> preprocess d ts = ts.
Proof.
  destruct d as [ | d]; [reflexivity | ].
  induction ts as [ | t ts IH]; intros Hfree; [reflexivity | ].
  unfold macro_free in Hfree. cbn [forallb] in Hfree.
  apply andb_true_iff in Hfree. destruct Hfree as [Ht Hts].
  rewrite preprocess_cons, (IH Hts).
  destruct t; try discriminate Ht; reflexivity.
Qed.

(** Once nothing is left to replace, a deeper rescan changes nothing. *)
Lemma preprocess_step (d : nat) (ts : list token) :
  macro_free (preprocess d ts) = true -> preprocess (S d) ts = preprocess d ts.
Proof.
  revert ts. induction d as [ | d IH]; intros ts Hfree.
  - cbn [preprocess] in Hfree. rewrite (preprocess_macro_free 1 ts Hfree). reflexivity.
  - induction ts as [ | t ts IHts]; [reflexivity | ].
    rewrite preprocess_cons in Hfree.
    rewrite (preprocess_cons (S d)), (preprocess_cons d).
    rewrite macro_free_app in Hfree. apply andb_true_iff in Hfree.
    destruct Hfree as [Ht Hts]. rewrite (IHts Hts). f_equal.
    destruct t; try reflexivity.
    + cbn [preprocess flat_map] in Ht |- *. rewrite !app_nil_r in *.
      apply (IH (mask_text m) Ht).
    + cbn [preprocess flat_map] in Ht |- *. rewrite !app_nil_r in *.
      apply (IH (phys_text c) Ht).
Qed.

Lemma preprocess_stable (d n : nat) (ts : list token) :
  macro_free (preprocess d ts) = true -> (d <= n)%nat ->
  preprocess n ts = preprocess d ts.
Proof.
  intros Hfree Hn. induction Hn as [ | n Hn IH]; [reflexivity | ].
  rewrite preprocess_step; [exact IH | rewrite IH; exact Hfree].
Qed.

(** X7 (what a mask name expands to).  For every mask of the header the
    preprocessor ends, after at most seven rescans, with no macro name
    left and with the flat chain [(1 << b1) | (1 << b2) | ...] of the
    operand-level expansion; the chain is not empty, every shift count is
    the bit of an attribute group, the first is the mask's own bit or, for
    a stage mask, that of its first part, and the positions bit is among
    them.  Rescanning more often changes nothing. *)
Theorem DS_mask_expands_to_flat_chain (m : macro) :
  preprocess 7 [t_mask m] = chain_tokens (expand 6 (replacement m))
  /\ macro_free (preprocess 7 [t_mask m]) = true
  /\ (forall n : nat, (7 <= n)%nat -> preprocess n [t_mask m] = preprocess 7 [t_mask m])
  /\ expand 6 (replacement m) <> []
  /\ Forall (fun b => exists a, DS_bit a = b) (expand 6 (replacement m))
  /\ In DS_bit_x (expand 6 (replacement m))
  /\ chain_value (expand 6 (replacement m)) = DS_mask_named m.
Proof.
  assert (Hfree : macro_free (preprocess 7 [t_mask m]) = true)
    by (destruct m; reflexivity).
  split; [destruct m; reflexivity | ].
  split; [exact Hfree | ].
  split; [intros n Hn; apply preprocess_stable; assumption | ].
  split; [destruct m; discriminate | ].
  split.
  { assert (Hbits : forall b, 0 <= b <= 8 -> exists a, DS_bit a = b).
    { intros b Hb.
      assert (Hc : b = 0 \/ b = 1 \/ b = 2 \/ b = 3 \/ b = 4 \/ b = 5 \/ b = 6
                   \/ b = 7 \/ b = 8) by lia.
      destruct Hc as [-> | [-> | [-> | [-> | [-> | [-> | [-> | [-> | ->]]]]]]]];
        [exists attr_x | exists attr_neighbours | exists attr_velocity
         | exists attr_density | exists attr_abundance | exists attr_turb_doppler
         | exists attr_temperatures | exists attr_ACOEFF | exists attr_populations];
        reflexivity. }
    apply Forall_forall. intros b Hb. apply Hbits.
    destruct m; cbv in Hb; intuition (subst; lia). }
  split; [destruct m; cbv; tauto | ].
  destruct m; vm_compute; reflexivity.
Qed.

End Expansion.
